(** * A shallow embedding of the wireless-display server and client

    Modelled parts:
    - [server/capture.rs], [capture_mouse]: the pointer sampler (one poll
      turned into a [MousePosition]) and its [mpsc::channel(64)] handoff to
      the data-channel sender;
    - [server/route.rs], [sdp_handler]: the signaling endpoint, split into
      the atomic steps separated by its lock acquisitions and awaits, and the
      peer-connection state observer it registers;
    - [client/connect.rs], [process_video_track]: the H.264 reassembly loop. *)

From Stdlib Require Import ZArith Bool List String Ascii Lia.
From Stdlib Require Import PrimFloat Uint63.
From Stdlib Require Import Init.Byte.
Import ListNotations.

Open Scope Z_scope.

(** ** Pointer sampler ([server/capture.rs]) *)

Module Mouse.

(** [CaptureDevice]: [width]/[height] are [u32], [x]/[y] are [i32]. *)
Record CaptureDevice := {
  index : nat;
  width : Z;
  height : Z;
  x : Z;
  y : Z
}.

(** [MousePosition] of [shared/mod.rs]: two [f64]. *)
Record MousePosition := { mx : float; my : float }.

(** [Mouse::get_mouse_position()]: a position of two [i32], or an error. *)
Inductive MousePoll :=
| Position (px py : Z)
| Error.

(** [i32] subtraction as a release build computes it (two's complement
    wrap-around; overflow checks are off in that profile). *)
Definition i32_wrap (z : Z) : Z :=
  (z + 2 ^ 31) mod 2 ^ 32 - 2 ^ 31.

Definition i32_sub (a b : Z) : Z := i32_wrap (a - b).

(** [n as f64] for an integer of at most 53 bits (every [i32] and [u32]),
    where the conversion is exact. *)
Definition f64_of_Z (z : Z) : float :=
  if z <? 0
  then PrimFloat.opp (PrimFloat.of_uint63 (Uint63.of_Z (- z)))
  else PrimFloat.of_uint63 (Uint63.of_Z z).

(** [if state.device.width > 0 { (x - state.device.x) as f64 /
    state.device.width as f64 } else { 0.0 }] *)
Definition relative_axis (p origin extent : Z) : float :=
  if 0 <? extent
  then PrimFloat.div (f64_of_Z (i32_sub p origin)) (f64_of_Z extent)
  else 0%float.

(** [if r >= 0.0 && r <= 1.0 { r } else { -1.0 }] *)
Definition out_of_bounds (r : float) : float :=
  if PrimFloat.leb 0%float r && PrimFloat.leb r 1%float then r
  else (-1)%float.

(** One poll of the capture loop: the value handed to [tx.try_send], or
    [None] when the poll fails (the loop then breaks). *)
Definition sample (dev : CaptureDevice) (poll : MousePoll)
  : option MousePosition :=
  match poll with
  | Position px py =>
      let relative_x := relative_axis px (x dev) (width dev) in
      let relative_y := relative_axis py (y dev) (height dev) in
      let relative_x := out_of_bounds relative_x in
      let relative_y := out_of_bounds relative_y in
      Some {| mx := relative_x; my := relative_y |}
  | Error => None
  end.

Definition example_device : CaptureDevice :=
  {| index := 0; width := 1920; height := 1080; x := 0; y := 0 |}.

End Mouse.

(** ** Sampler-to-sender handoff ([server/capture.rs], [capture_mouse])

    [mpsc::channel::<MousePosition>(64)]: the sampler calls [tx.try_send],
    which fails (and the sample is dropped) when 64 samples are pending; the
    sender task takes them with [rx.recv()] in order. *)

Module Handoff.

Definition capacity : nat := 64.

Definition Channel (A : Type) := list A.

(** [let _ = tx.try_send(v);] *)
Definition try_send {A} (q : Channel A) (v : A) : Channel A :=
  if Nat.ltb (List.length q) capacity then q ++ [v] else q.

(** [rx.recv().await]: the oldest pending sample, or [None] while the
    channel is empty (the sender waits). *)
Definition recv {A} (q : Channel A) : option (A * Channel A) :=
  match q with
  | [] => None
  | v :: q' => Some (v, q')
  end.

(** The two tasks interleave: a poll publishes, a sender turn consumes. *)
Inductive Event (A : Type) :=
| Publish (v : A)
| Consume.
Arguments Publish {A} v.
Arguments Consume {A}.

(** Runs the events from a queue; returns the queue and the samples
    consumed by the sender, in order. *)
Fixpoint run {A} (q : Channel A) (evs : list (Event A))
  : Channel A * list A :=
  match evs with
  | [] => (q, [])
  | Publish v :: evs' => run (try_send q v) evs'
  | Consume :: evs' =>
      match recv q with
      | None => run q evs'
      | Some (v, q') => let '(q'', out) := run q' evs' in (q'', v :: out)
      end
  end.

End Handoff.

(** ** Signaling endpoint ([server/route.rs], [server/mod.rs]) *)

Module Signal.

Inductive ConnectionState := Disconnected | Connecting | Connected.

Definition ConnectionState_eqb (a b : ConnectionState) : bool :=
  match a, b with
  | Disconnected, Disconnected | Connecting, Connecting
  | Connected, Connected => true
  | _, _ => false
  end.

(** The fields of [AppState] the endpoint reads or writes; the
    [Arc<RTCPeerConnection>] and [Arc<TrackLocalStaticSample>] handles are
    represented by identifiers. *)
Record AppState := {
  password : option string;
  connection : ConnectionState;
  peer_connection : option nat;
  video_track : option nat
}.

Definition set_connection (c : ConnectionState) (s : AppState) : AppState :=
  {| password := password s; connection := c;
     peer_connection := peer_connection s; video_track := video_track s |}.
Definition set_peer_connection (pc : option nat) (s : AppState) : AppState :=
  {| password := password s; connection := connection s;
     peer_connection := pc; video_track := video_track s |}.
Definition set_video_track (t : option nat) (s : AppState) : AppState :=
  {| password := password s; connection := connection s;
     peer_connection := peer_connection s; video_track := t |}.

(** [SdpData] *)
Record SdpData := { sdp : string; sdp_password : option string }.

(** [Option<String>::unwrap_or_default] *)
Definition unwrap_or_default (o : option string) : string :=
  match o with Some v => v | None => EmptyString end.

(** What the base64, serde and webrtc calls of the handler return for one
    offer; every [unwrap] on a failing call panics. *)
Record Webrtc := {
  offer_decodes : bool;            (* base64 decode, then serde parse *)
  new_peer_connection : option nat; (* create_peer_connection() *)
  new_video_track : nat;           (* TrackLocalStaticSample::new *)
  add_track_ok : bool;             (* pc.add_track *)
  negotiation_ok : bool;           (* set_remote, create_answer, set_local *)
  local_description : option string (* pc.local_description(), encoded *)
}.

(** [if let Some(password) = &state.password {
      if password != &sdp_data.password.unwrap_or_default() { reject } }] *)
Definition password_matches (configured given : option string) : bool :=
  match configured with
  | Some p => String.eqb p (unwrap_or_default given)
  | None => true
  end.

(** The rejections are [ErrorMessage]s; a panic aborts the request. *)
Inductive Outcome :=
| Reply (answer : SdpData)
| Reject (msg : string)
| Panic.

Definition msg_invalid_password : string := "Invalid password".
Definition msg_in_progress : string :=
  "Connection already in progress or established".
Definition msg_no_local_description : string :=
  "Failed to get local description".

(** The points of [sdp_handler] between which another task may run: every
    [lock().await] and every awaited call. *)
Inductive Phase :=
| Auth            (* lines 61-69 *)
| CheckBusy       (* lines 71-77: one lock of [connection] *)
| CreatePc        (* lines 79-84 *)
| AddTrack        (* lines 86-123 *)
| MarkConnecting  (* line 125: a second lock of [connection] *)
| Negotiate       (* lines 127-151 *)
| Done (o : Outcome).

(** One atomic step of the handler for offer [d]. *)
Definition step (w : Webrtc) (d : SdpData) (ph : Phase) (s : AppState)
  : Phase * AppState :=
  match ph with
  | Auth =>
      if password_matches (password s) (sdp_password d)
      then (CheckBusy, s)
      else (Done (Reject msg_invalid_password), s)
  | CheckBusy =>
      if ConnectionState_eqb (connection s) Disconnected
      then (CreatePc, s)
      else (Done (Reject msg_in_progress), s)
  | CreatePc =>
      if offer_decodes w then
        match new_peer_connection w with
        | Some pc => (AddTrack, set_peer_connection (Some pc) s)
        | None => (Done Panic, s)
        end
      else (Done Panic, s)
  | AddTrack =>
      let s' := set_video_track (Some (new_video_track w)) s in
      if add_track_ok w then (MarkConnecting, s') else (Done Panic, s')
  | MarkConnecting => (Negotiate, set_connection Connecting s)
  | Negotiate =>
      if negotiation_ok w then
        match local_description w with
        | Some b64 =>
            (Done (Reply {| sdp := b64; sdp_password := None |}),
             set_connection Connected s)
        | None => (Done (Reject msg_no_local_description), s)
        end
      else (Done Panic, s)
  | Done o => (Done o, s)
  end.

Fixpoint run (fuel : nat) (w : Webrtc) (d : SdpData) (ph : Phase)
  (s : AppState) : Phase * AppState :=
  match fuel with
  | O => (ph, s)
  | S n => let '(ph', s') := step w d ph s in run n w d ph' s'
  end.

(** The handler run alone from its start: six steps reach [Done]. *)
Definition sdp_handler (w : Webrtc) (d : SdpData) (s : AppState)
  : Phase * AppState :=
  run 6 w d Auth s.

(** The callback given to [on_peer_connection_state_change]. *)
Inductive RTCPeerConnectionState :=
| PcUnspecified | PcNew | PcConnecting | PcConnected
| PcDisconnected | PcFailed | PcClosed.

Definition is_terminal (r : RTCPeerConnectionState) : bool :=
  match r with
  | PcDisconnected | PcClosed | PcFailed => true
  | _ => false
  end.

Definition on_state_change (r : RTCPeerConnectionState) (s : AppState)
  : AppState :=
  if is_terminal r then
    set_video_track None
      (set_peer_connection None (set_connection Disconnected s))
  else s.

(** Concurrent requests: each task runs one offer; a schedule names the
    task that takes the next atomic step. *)
Record Task := { t_webrtc : Webrtc; t_offer : SdpData; t_phase : Phase }.

Definition step_task (t : Task) (s : AppState) : Task * AppState :=
  let '(ph, s') := step (t_webrtc t) (t_offer t) (t_phase t) s in
  ({| t_webrtc := t_webrtc t; t_offer := t_offer t; t_phase := ph |}, s').

Fixpoint step_nth (i : nat) (ts : list Task) (s : AppState)
  : list Task * AppState :=
  match ts, i with
  | [], _ => ([], s)
  | t :: ts', O => let '(t', s') := step_task t s in (t' :: ts', s')
  | t :: ts', S j => let '(ts'', s') := step_nth j ts' s in (t :: ts'', s')
  end.

Fixpoint run_schedule (sched : list nat) (ts : list Task) (s : AppState)
  : list Task * AppState :=
  match sched with
  | [] => (ts, s)
  | i :: sched' => let '(ts', s') := step_nth i ts s in
                   run_schedule sched' ts' s'
  end.

End Signal.

(** ** H.264 reassembly ([client/connect.rs], [process_video_track]) *)

Module Depack.

Definition bytes := list byte.

(** One packet read by [track.read_rtp()]: what
    [h264_packet.depacketize(&rtp_packet.payload)] returns for it ([None]
    for an [Err]), its marker bit and its RTP timestamp ([u32]). *)
Record RtpPacket := {
  depacketized : option bytes;
  marker : bool;
  timestamp : Z
}.

(** [WebRTCPacket] *)
Record WebRTCPacket := { data : bytes; ts : Z }.

Definition start_code : bytes := [x00; x00; x00; x01].

Definition is_empty (b : bytes) : bool :=
  match b with [] => true | _ => false end.

(** One iteration of the loop body: the new [frame_buf] and the packet
    given to [packet_tx.send], if any ([std::mem::take] empties the
    buffer). *)
Definition on_packet (frame_buf : bytes) (pkt : RtpPacket)
  : bytes * option WebRTCPacket :=
  let frame_buf :=
    match depacketized pkt with
    | Some payload =>
        if negb (is_empty payload)
        then frame_buf ++ start_code ++ payload
        else frame_buf
    | None => frame_buf
    end in
  if marker pkt && negb (is_empty frame_buf)
  then ([], Some {| data := frame_buf; ts := timestamp pkt |})
  else (frame_buf, None).

(** The loop over the packets the track yields (a read error ends the list).
    [rx_open] tells whether [packet_tx.send] succeeds; on failure the loop
    breaks.  Returns the packets given to [send] and the final buffer. *)
Fixpoint process_video_track (rx_open : bool) (frame_buf : bytes)
  (pkts : list RtpPacket) : list WebRTCPacket * bytes :=
  match pkts with
  | [] => ([], frame_buf)
  | pkt :: rest =>
      match on_packet frame_buf pkt with
      | (buf', None) => process_video_track rx_open buf' rest
      | (buf', Some f) =>
          if rx_open
          then let '(out, b) := process_video_track rx_open buf' rest in
               (f :: out, b)
          else ([f], buf')
      end
  end.

(** [start_code + p1 + start_code + p2 + ... + start_code + pk] *)
Definition annexb (ps : list bytes) : bytes :=
  flat_map (fun p => start_code ++ p) ps.

End Depack.

(** ** Pairing over mDNS ([server/pair.rs], [client/pair.rs]) *)

Module Pairing.

(** [u16::to_string]: decimal digits without leading zeros (a [u16] has at
    most five). *)
Fixpoint dec_rev (fuel : nat) (n : Z) : list ascii :=
  match fuel with
  | O => []
  | S f =>
      ascii_of_nat (48 + Z.to_nat (n mod 10))
        :: (if n / 10 =? 0 then [] else dec_rev f (n / 10))
  end.

Definition u16_to_string (n : Z) : string :=
  string_of_list_ascii (rev (dec_rev 5 n)).

(** [u16::from_str] (radix 10): a lone sign is an error, a leading ['+']
    is skipped, every other byte must be an ASCII digit, and the value is
    accumulated with [checked_mul(10)] and [checked_add(d)]. *)
Definition digit_of (c : ascii) : option Z :=
  let n := nat_of_ascii c in
  if (48 <=? n)%nat && (n <=? 57)%nat then Some (Z.of_nat n - 48) else None.

Fixpoint parse_digits (acc : Z) (s : string) : option Z :=
  match s with
  | EmptyString => Some acc
  | String c s' =>
      match digit_of c with
      | None => None
      | Some d =>
          let acc := acc * 10 in
          if 65535 <? acc then None
          else let acc := acc + d in
               if 65535 <? acc then None else parse_digits acc s'
      end
  end.

Definition parse_u16 (s : string) : option Z :=
  match s with
  | EmptyString => None
  | String c EmptyString =>
      if Ascii.eqb c "+"%char || Ascii.eqb c "-"%char then None else parse_digits 0 s
  | String c rest => if Ascii.eqb c "+"%char then parse_digits 0 rest
                     else parse_digits 0 s
  end.

(** [IpAddr] *)
Inductive IpAddr := V4 (a : Z) | V6 (a : Z).

Definition is_ipv4 (a : IpAddr) : bool :=
  match a with V4 _ => true | V6 _ => false end.

Definition ip_eqb (a b : IpAddr) : bool :=
  match a, b with
  | V4 u, V4 v | V6 u, V6 v => Z.eqb u v
  | _, _ => false
  end.

(** A resolved service as [find_server_address] reads it: its full name,
    its TXT properties (key and [val_str()], a property without a value
    reading as the empty string) and its addresses, in the order
    [get_addresses().iter()] yields them. *)
Record ServiceInfo := {
  fullname : string;
  properties : list (string * string);
  addresses : list IpAddr
}.

(** ASCII lower case of one byte. *)
Definition ascii_lower (c : ascii) : ascii :=
  let n := nat_of_ascii c in
  if (65 <=? n)%nat && (n <=? 90)%nat then ascii_of_nat (n + 32) else c.

(** Key comparison of mdns-sd's [TxtProperties::get], which ignores case.
    The keys looked up here ([code], [port]) are ASCII letters, for which
    comparing lower-cased keys means equality up to ASCII case. *)
Fixpoint eq_ignore_ascii_case (a b : string) : bool :=
  match a, b with
  | EmptyString, EmptyString => true
  | String c a', String d b' =>
      Ascii.eqb (ascii_lower c) (ascii_lower d) && eq_ignore_ascii_case a' b'
  | _, _ => false
  end.

(** [properties.get(k).map(|p| p.val_str())]: the first property whose key
    equals [k] up to case. *)
Fixpoint get (k : string) (props : list (string * string)) : option string :=
  match props with
  | [] => None
  | (k', v) :: props' =>
      if eq_ignore_ascii_case k' k then Some v else get k props'
  end.

Definition service_name : string := "wireless-display"%string.
Definition service_type : string := "_http._tcp.local."%string.

(** What [start_pairing_service] registers: the instance
    [wireless-display] of [_http._tcp.local.], whose full name mdns-sd
    forms as [<instance>.<type>], with the properties [code] and
    [port = port.to_string()]. *)
Definition advertised (code : string) (port : Z) (addrs : list IpAddr)
  : ServiceInfo :=
  {| fullname := (service_name ++ "." ++ service_type)%string;
     properties := [("code"%string, code); ("port"%string, u16_to_string port)];
     addresses := addrs |}.

Inductive ServiceEvent :=
| ServiceResolved (info : ServiceInfo)
| OtherEvent.

(** How the [while let] loop is left: by the [return] after a confirmed
    prompt, by the end of the browse stream, or by the [?] of a failed
    [Confirm::interact()]. *)
Inductive LoopExit :=
| Accepted (ip : IpAddr) (port : Z)
| StreamEnded
| PromptFailed.

(** The browse loop (lines 15-55) over the events it receives, from the
    set [visited] of addresses already offered; [answers] are the user's
    replies to the successive prompts (running out of them stands for
    [interact()] failing).  Returns how the loop is left and the addresses
    the user was asked about, in order. *)
Fixpoint browse_loop (code : string) (visited : list IpAddr)
  (evs : list ServiceEvent) (answers : list bool)
  : LoopExit * list IpAddr :=
  match evs with
  | [] => (StreamEnded, [])
  | OtherEvent :: rest => browse_loop code visited rest answers
  | ServiceResolved info :: rest =>
      if negb (String.prefix service_name (fullname info))
      then browse_loop code visited rest answers
      else
        match get "code"%string (properties info) with
        | Some service_code =>
            if String.eqb service_code code then
              let port := match get "port"%string (properties info) with
                          | Some p => parse_u16 p
                          | None => None
                          end in
              let address := List.find is_ipv4 (addresses info) in
              match port, address with
              | Some port, Some ip =>
                  if existsb (ip_eqb ip) visited
                  then browse_loop code visited rest answers
                  else
                    match answers with
                    | [] => (PromptFailed, [ip])
                    | true :: _ => (Accepted ip port, [ip])
                    | false :: answers' =>
                        let '(r, asked) :=
                          browse_loop code (ip :: visited) rest answers'
                        in (r, ip :: asked)
                    end
              | _, _ => browse_loop code visited rest answers
              end
            else browse_loop code visited rest answers
        | None => browse_loop code visited rest answers
        end
  end.

(** [Ok(Some(addr))], [Ok(None)], or an [Err]. *)
Inductive PairResult :=
| Found (ip : IpAddr) (port : Z)
| NotFound
| Failed.

(** [find_server_address]: [daemon_ok] tells whether [ServiceDaemon::new()?]
    and [mdns.browse(..)?] succeed, [stop_ok] whether the
    [mdns.stop_browse(..)?] on the way out (line 48 or line 57) does.
    Returns the result and the addresses the user was asked about. *)
Definition find_server_address (daemon_ok stop_ok : bool) (code : string)
  (evs : list ServiceEvent) (answers : list bool)
  : PairResult * list IpAddr :=
  if negb daemon_ok then (Failed, [])
  else
    let '(e, asked) := browse_loop code [] evs answers in
    match e with
    | Accepted ip port => (if stop_ok then Found ip port else Failed, asked)
    | StreamEnded => (if stop_ok then NotFound else Failed, asked)
    | PromptFailed => (Failed, asked)
    end.

End Pairing.

(** ** Cursor overlay ([client/gui.rs], [window_event]) *)

Module Gui.

(** [if let Some(mouse) = &frame.mouse { if mouse.x >= 0.0 && mouse.y >= 0.0
    { render_with_cursor(..) } else { render(..) } } else { render(..) }]:
    whether the frame is drawn with the cursor. *)
Definition cursor_drawn (mouse : option Mouse.MousePosition) : bool :=
  match mouse with
  | Some m => PrimFloat.leb 0 (Mouse.mx m) && PrimFloat.leb 0 (Mouse.my m)
  | None => false
  end.

End Gui.

(** ** Session bookkeeping invariant (used by the proofs about concurrent
    requests) *)

Module SignalInv.
Import Signal.

(** A session marked [Connecting] or [Connected] holds a peer connection
    and a track. *)
Definition session_ok (s : AppState) : Prop :=
  connection s <> Disconnected ->
  peer_connection s <> None /\ video_track s <> None.

(** What a request in a given phase has already stored. *)
Definition phase_ok (ph : Phase) (s : AppState) : Prop :=
  match ph with
  | AddTrack => peer_connection s <> None
  | MarkConnecting | Negotiate =>
      peer_connection s <> None /\ video_track s <> None
  | _ => True
  end.

(** What a request has established in each phase, [pw] being the
    configured password: past [Auth] it passed the password check; once
    answered, its answer is its local description with no password, and
    the session is not [Disconnected]. *)
Definition answered_ok (pw : option string) (t : Task) (s : AppState) : Prop :=
  match t_phase t with
  | Auth => True
  | Done (Reply a) =>
      password_matches pw (sdp_password (t_offer t)) = true
      /\ local_description (t_webrtc t) = Some (sdp a)
      /\ sdp_password a = None
      /\ connection s <> Disconnected
  | Done _ => True
  | _ => password_matches pw (sdp_password (t_offer t)) = true
  end.

End SignalInv.

(** ** Concrete scenarios *)

Module Scenarios.
Import Signal.
Local Open Scope string_scope.

Definition webrtc_ok (pc trk : nat) (answer : string) : Webrtc :=
  {| offer_decodes := true; new_peer_connection := Some pc;
     new_video_track := trk; add_track_ok := true; negotiation_ok := true;
     local_description := Some answer |}.

Definition offer_with (pw : option string) : SdpData :=
  {| sdp := "b2ZmZXI="; sdp_password := pw |}.

Definition idle (pw : option string) : AppState :=
  {| password := pw; connection := Disconnected;
     peer_connection := None; video_track := None |}.

(** Two requests with the right password, both started while the session
    is [Disconnected]. *)
Definition two_offers : list Task :=
  [ {| t_webrtc := webrtc_ok 1 1 "YW5zd2VyMQ=="; t_offer := offer_with (Some "pw");
       t_phase := Auth |};
    {| t_webrtc := webrtc_ok 2 2 "YW5zd2VyMg=="; t_offer := offer_with (Some "pw");
       t_phase := Auth |} ].

(** Both pass the [Disconnected] test (lines 71-77) before either sets
    [Connecting] (line 125). *)
Definition racing_schedule : list nat :=
  [0; 0; 1; 1; 0; 0; 0; 0; 1; 1; 1; 1]%nat.

Definition connected_state : AppState :=
  {| password := Some "pw"; connection := Connected;
     peer_connection := Some 1%nat; video_track := Some 1%nat |}.

Definition sample_a : Mouse.MousePosition :=
  {| Mouse.mx := 0.25; Mouse.my := 0.25 |}.
Definition sample_b : Mouse.MousePosition :=
  {| Mouse.mx := 0.75; Mouse.my := 0.75 |}.

(** A handoff queue holding 64 pending samples (full), and one holding
    two. *)
Definition full_queue : Handoff.Channel Mouse.MousePosition :=
  repeat sample_a 64.
Definition two_pending : Handoff.Channel Mouse.MousePosition :=
  [sample_a; sample_b].

(** A resolved [wireless-display] service whose TXT keys are written in
    upper or mixed case. *)
Definition upper_case_keys : Pairing.ServiceInfo :=
  {| Pairing.fullname := "wireless-display._http._tcp.local.";
     Pairing.properties := [("CODE", "hello"); ("Port", "8787")];
     Pairing.addresses := [Pairing.V6 1; Pairing.V4 5] |}.

Definition frag (p : Depack.bytes) (m : bool) (t : Z) : Depack.RtpPacket :=
  {| Depack.depacketized := Some p; Depack.marker := m; Depack.timestamp := t |}.

End Scenarios.

(** * Properties *)

(** ** Reassembly *)

Section Reassembly.
Import Depack.

Lemma on_packet_fragment (buf : bytes) (pkt : RtpPacket) (p : bytes) :
  marker pkt = false -> depacketized pkt = Some p -> p <> [] ->
  on_packet buf pkt = (buf ++ start_code ++ p, None).
Proof.
  intros Hm Hd Hp. unfold on_packet. rewrite Hd, Hm.
  destruct p as [|b p]; [congruence|]. reflexivity.
Qed.

Lemma process_fragments (rx_open : bool) (pre rest : list RtpPacket)
  (ps : list bytes) (buf : bytes) :
  Forall (fun k => marker k = false) pre ->
  map depacketized pre = map Some ps ->
  Forall (fun p => p <> []) ps ->
  process_video_track rx_open buf (pre ++ rest)
  = process_video_track rx_open (buf ++ annexb ps) rest.
Proof.
  revert ps buf.
  induction pre as [|k pre IH]; intros ps buf Hm Hd Hne.
  - destruct ps; [|discriminate]. simpl. rewrite app_nil_r. reflexivity.
  - destruct ps as [|p ps]; [discriminate|].
    simpl in Hd. injection Hd as Hk Hd.
    inversion Hm as [|? ? Hkm Hm']; subst.
    inversion Hne as [|? ? Hp Hne']; subst.
    simpl. rewrite (on_packet_fragment buf k p Hkm Hk Hp).
    rewrite (IH ps _ Hm' Hd Hne').
    f_equal. rewrite <- !app_assoc. reflexivity.
Qed.

Lemma annexb_nonempty (ps : list bytes) (p : bytes) :
  is_empty (annexb ps ++ start_code ++ p) = false.
Proof. destruct (annexb ps); reflexivity. Qed.

(** C6: the fragments of one access unit, the last one carrying the marker
    bit and all depacketizing to non-empty payloads, fed from an empty
    buffer, give exactly one access unit
    [start_code + p1 + ... + start_code + pk] stamped with the marker
    fragment's timestamp, and leave the buffer empty. *)
Theorem depack_access_unit_roundtrip (rx_open : bool)
  (pre : list RtpPacket) (last : RtpPacket) (ps : list bytes) (plast : bytes)
  (Hpre : Forall (fun k => marker k = false) pre)
  (Hpay : map depacketized pre = map Some ps)
  (Hne : Forall (fun p => p <> []) ps)
  (Hlast : depacketized last = Some plast)
  (Hlne : plast <> [])
  (Hmark : marker last = true) :
  process_video_track rx_open [] (pre ++ [last])
  = ([{| data := annexb (ps ++ [plast]); ts := timestamp last |}], []).
Proof.
  rewrite (process_fragments rx_open pre [last] ps [] Hpre Hpay Hne).
  destruct plast as [|b plast]; [congruence|].
  cbn [app process_video_track]. unfold on_packet. rewrite Hlast, Hmark.
  cbn [is_empty negb andb].
  rewrite (annexb_nonempty ps (b :: plast)). cbn [negb andb].
  unfold annexb. rewrite flat_map_app. simpl. rewrite app_nil_r.
  destruct rx_open; reflexivity.
Qed.

(** C7: no access unit handed to the channel is ever empty, whatever the
    packets and the buffer the loop starts from; a marker packet whose
    payload depacketizes to nothing, arriving on an empty buffer, emits
    nothing. *)
Theorem depack_no_empty_access_unit :
  (forall (rx_open : bool) (buf : bytes) (pkts : list RtpPacket),
      Forall (fun f => data f <> []) (fst (process_video_track rx_open buf pkts)))
  /\ (forall ts0 : Z,
      on_packet [] {| depacketized := Some []; marker := true;
                      timestamp := ts0 |} = ([], None)).
Proof.
  split; [|reflexivity].
  intros rx_open buf pkts. revert buf.
  induction pkts as [|pkt rest IH]; intros buf; simpl; [constructor|].
  unfold on_packet at 1.
  set (b1 := match depacketized pkt with
             | Some payload => if negb (is_empty payload)
                               then buf ++ start_code ++ payload else buf
             | None => buf end).
  destruct (marker pkt && negb (is_empty b1)) eqn:E.
  - apply andb_true_iff in E as [_ E].
    assert (Hb : b1 <> []) by (destruct b1; discriminate).
    destruct rx_open.
    + specialize (IH []). destruct (process_video_track true [] rest).
      simpl in *. constructor; assumption.
    + simpl. constructor; [assumption | constructor].
  - apply IH.
Qed.

End Reassembly.

(** ** Pointer normalization *)

Section Normalization.
Import Mouse.

(** The [i32] difference is the exact one whenever it fits in [i32], which
    is the case for every pointer position and monitor origin an operating
    system reports. *)
Lemma i32_sub_exact (a b : Z) :
  - 2 ^ 31 <= a - b < 2 ^ 31 -> i32_sub a b = a - b.
Proof.
  intros H. unfold i32_sub, i32_wrap.
  rewrite Z.mod_small by lia. lia.
Qed.

(** C8: for a device of positive extent, each published coordinate is the
    [f64] quotient [(p - origin) as f64 / extent as f64] (the difference
    taken in [i32], as the code computes it) when that quotient lies in
    [0, 1], and [-1] otherwise; on the 1920x1080 device at the origin,
    (960, 540) gives (0.5, 0.5) and (-10, 540) gives (-1, 0.5). *)
Theorem mouse_normalization (dev : CaptureDevice) (px py : Z)
  (Hw : 0 < width dev) (Hh : 0 < height dev) :
  sample dev (Position px py)
  = Some {| mx := let q := PrimFloat.div (f64_of_Z (i32_sub px (x dev)))
                                         (f64_of_Z (width dev)) in
                  if PrimFloat.leb 0 q && PrimFloat.leb q 1 then q else -1;
            my := let q := PrimFloat.div (f64_of_Z (i32_sub py (y dev)))
                                         (f64_of_Z (height dev)) in
                  if PrimFloat.leb 0 q && PrimFloat.leb q 1 then q else -1 |}
  /\ sample example_device (Position 960 540)
     = Some {| mx := 0.5; my := 0.5 |}
  /\ sample example_device (Position (-10) 540)
     = Some {| mx := -1; my := 0.5 |}.
Proof.
  split; [|split; vm_compute; reflexivity].
  unfold sample, relative_axis.
  apply Z.ltb_lt in Hw. apply Z.ltb_lt in Hh.
  rewrite Hw, Hh. reflexivity.
Qed.

(** C10: a device of zero width publishes [x = 0.0] and one of zero height
    publishes [y = 0.0], for every pointer position; with a zero extent the
    division is not evaluated. *)
Theorem mouse_zero_extent_total :
  (forall (i : nat) (h ox oy px py : Z),
      option_map mx (sample {| index := i; width := 0; height := h;
                               x := ox; y := oy |} (Position px py))
      = Some 0%float)
  /\ (forall (i : nat) (w ox oy px py : Z),
      option_map my (sample {| index := i; width := w; height := 0;
                               x := ox; y := oy |} (Position px py))
      = Some 0%float)
  /\ (forall p origin : Z, relative_axis p origin 0 = 0%float).
Proof.
  split; [|split].
  - intros. reflexivity.
  - intros. reflexivity.
  - intros. reflexivity.
Qed.

End Normalization.

(** ** Sampler handoff *)

Section HandoffProps.
Import Handoff.

Lemma try_send_length {A} (q : Channel A) (v : A) :
  (List.length q <= capacity)%nat ->
  (List.length (try_send q v) <= capacity)%nat.
Proof.
  unfold try_send. destruct (Nat.ltb_spec (List.length q) capacity).
  - rewrite length_app. simpl. lia.
  - lia.
Qed.

Lemma run_bounded {A} (evs : list (Event A)) (q : Channel A) :
  (List.length q <= capacity)%nat ->
  (List.length (fst (run q evs)) <= capacity)%nat.
Proof.
  revert q. induction evs as [|[v|] evs IH]; intros q Hq; simpl.
  - exact Hq.
  - apply IH, try_send_length, Hq.
  - destruct q as [|u q']; simpl.
    + apply IH. exact Hq.
    + specialize (IH q'). destruct (run q' evs) as [q'' out].
      apply IH. simpl in Hq. lia.
Qed.

(** C9 (as the code does it): the handoff is a FIFO of at most 64 pending
    samples; a sample published while 64 are pending is dropped and the
    pending ones kept, otherwise it is queued behind them; the sender takes
    the oldest pending sample. *)
Theorem handoff_bounded_fifo {A} (q : Channel A) (v u : A)
  (evs : list (Event A)) (Hq : (List.length q <= capacity)%nat) :
  (List.length (fst (run q evs)) <= capacity)%nat
  /\ (List.length q = capacity -> try_send q v = q)
  /\ ((List.length q < capacity)%nat -> try_send q v = q ++ [v])
  /\ recv (u :: q) = Some (u, q).
Proof.
  split; [apply run_bounded, Hq|].
  split; [|split; [|reflexivity]]; intros H; unfold try_send.
  - rewrite H, Nat.ltb_irrefl. reflexivity.
  - apply Nat.ltb_lt in H. rewrite H. reflexivity.
Qed.

End HandoffProps.

(** ** Signaling endpoint *)

Section Signaling.
Import Signal Scenarios.
Local Open Scope string_scope.

Lemma run_done (n : nat) (w : Webrtc) (d : SdpData) (o : Outcome)
  (s : AppState) : run n w d (Done o) s = (Done o, s).
Proof. induction n; simpl; auto. Qed.

Lemma run_S (n : nat) (w : Webrtc) (d : SdpData) (ph : Phase)
  (s : AppState) :
  run (S n) w d ph s = let '(ph', s') := step w d ph s in run n w d ph' s'.
Proof. reflexivity. Qed.


(** C1 (the code at the racing interleaving): both concurrent offers are
    accepted and both write [Connecting]; neither gets [SessionBusy]. *)
Theorem concurrent_offers_both_accepted :
  let '(ts, s) := run_schedule racing_schedule two_offers (idle (Some "pw")) in
  map t_phase ts
  = [Done (Reply {| sdp := "YW5zd2VyMQ=="; sdp_password := None |});
     Done (Reply {| sdp := "YW5zd2VyMg=="; sdp_password := None |})]
  /\ s = {| password := Some "pw"; connection := Connected;
            peer_connection := Some 2%nat; video_track := Some 2%nat |}
  /\ map t_phase (fst (run_schedule [0; 0; 1; 1]%nat two_offers
                                    (idle (Some "pw"))))
     = [CreatePc; CreatePc].
Proof. vm_compute. split; [reflexivity | split; reflexivity]. Qed.

(** C2 as stated fails: with an empty configured password, an offer
    without a password field is not rejected but accepted. *)
Lemma auth_absent_field_counterexample :
  sdp_password (offer_with None) <> password (idle (Some ""))
  /\ sdp_handler (webrtc_ok 1 1 "YW5zd2Vy") (offer_with None) (idle (Some ""))
     = (Done (Reply {| sdp := "YW5zd2Vy"; sdp_password := None |}),
        {| password := Some ""; connection := Connected;
           peer_connection := Some 1%nat; video_track := Some 1%nat |}).
Proof. split; [discriminate | reflexivity]. Qed.

(** C2 (as the code does it): when a password [p] is configured and the
    offer's field, an absent field read as the empty string, differs from
    it, the handler rejects with [AuthFailed] (the ["Invalid password"]
    message) and leaves the whole state, handles included, as it was. *)
Theorem auth_failure_rejects_unchanged (w : Webrtc) (d : SdpData)
  (s : AppState) (p : string)
  (Hpw : password s = Some p)
  (Hne : String.eqb p (unwrap_or_default (sdp_password d)) = false) :
  sdp_handler w d s = (Done (Reject msg_invalid_password), s).
Proof.
  unfold sdp_handler. rewrite run_S. unfold step, password_matches.
  rewrite Hpw, Hne. exact (run_done 5 w d _ s).
Qed.

Lemma auth_failure_rejects_unchanged_witness :
  password (idle (Some "pw")) = Some "pw"
  /\ sdp_handler (webrtc_ok 1 1 "YW5zd2Vy") (offer_with (Some "other"))
                 (idle (Some "pw"))
     = (Done (Reject msg_invalid_password), idle (Some "pw")).
Proof.
  split; [reflexivity|].
  apply (auth_failure_rejects_unchanged _ _ _ "pw"); reflexivity.
Defined.

(** C3 as stated fails: an offer with a wrong password while connected is
    rejected with [AuthFailed], not [SessionBusy]. *)
Lemma busy_wrong_password_counterexample :
  let s := {| password := Some "pw"; connection := Connected;
              peer_connection := Some 1%nat; video_track := Some 1%nat |} in
  fst (sdp_handler (webrtc_ok 2 2 "YW5zd2Vy") (offer_with (Some "bad")) s)
  = Done (Reject msg_invalid_password)
  /\ msg_invalid_password <> msg_in_progress.
Proof. split; [reflexivity | discriminate]. Qed.

(** C3 (as the code does it): an offer that passes the password check,
    received while the state is [Connecting] or [Connected], is rejected
    with [SessionBusy]; an offer that fails it is rejected with
    [AuthFailed] whatever the state; either way the state is left as it
    was. *)
Theorem busy_rejects_after_auth (w : Webrtc) (d : SdpData) (s : AppState) :
  (password_matches (password s) (sdp_password d) = true ->
   connection s <> Disconnected ->
   sdp_handler w d s = (Done (Reject msg_in_progress), s))
  /\ (password_matches (password s) (sdp_password d) = false ->
      sdp_handler w d s = (Done (Reject msg_invalid_password), s)).
Proof.
  split; intros Hauth.
  - intros Hbusy.
    unfold sdp_handler. rewrite run_S. unfold step at 1. rewrite Hauth.
    rewrite run_S. unfold step at 1.
    destruct (connection s) eqn:E; [congruence| |];
      exact (run_done 4 w d _ s).
  - unfold sdp_handler. rewrite run_S. unfold step at 1. rewrite Hauth.
    exact (run_done 5 w d _ s).
Qed.

Lemma busy_rejects_after_auth_witness :
  sdp_handler (webrtc_ok 2 2 "YW5zd2Vy") (offer_with (Some "pw")) connected_state
  = (Done (Reject msg_in_progress), connected_state)
  /\ sdp_handler (webrtc_ok 2 2 "YW5zd2Vy") (offer_with (Some "bad")) connected_state
     = (Done (Reject msg_invalid_password), connected_state).
Proof.
  split.
  - apply (proj1 (busy_rejects_after_auth (webrtc_ok 2 2 "YW5zd2Vy")
                    (offer_with (Some "pw")) connected_state));
      [reflexivity | discriminate].
  - apply (proj2 (busy_rejects_after_auth (webrtc_ok 2 2 "YW5zd2Vy")
                    (offer_with (Some "bad")) connected_state)).
    reflexivity.
Defined.

(** C4 (the code at the failing input): with no local description the
    handler rejects, yet leaves the session [Connecting] with both handles
    set; a panicking negotiation leaves the same state. *)
Theorem rejected_offer_changes_state :
  let w := {| offer_decodes := true; new_peer_connection := Some 1%nat;
              new_video_track := 1%nat; add_track_ok := true;
              negotiation_ok := true; local_description := None |} in
  sdp_handler w (offer_with None) (idle None)
  = (Done (Reject msg_no_local_description),
     {| password := None; connection := Connecting;
        peer_connection := Some 1%nat; video_track := Some 1%nat |})
  /\ sdp_handler {| offer_decodes := true; new_peer_connection := Some 1%nat;
                    new_video_track := 1%nat; add_track_ok := true;
                    negotiation_ok := false; local_description := None |}
                 (offer_with None) (idle None)
     = (Done Panic, {| password := None; connection := Connecting;
                       peer_connection := Some 1%nat;
                       video_track := Some 1%nat |}).
Proof. split; reflexivity. Qed.

(** C5: a [Disconnected], [Closed] or [Failed] report sets the state to
    [Disconnected] and both handles to [None]; a later offer that passes the
    password check is then accepted, given a working negotiation. *)
Theorem terminal_report_releases_session (r : RTCPeerConnectionState)
  (s : AppState) (w : Webrtc) (d : SdpData) (pc : nat) (answer : string)
  (Hr : r = PcDisconnected \/ r = PcClosed \/ r = PcFailed)
  (Hauth : password_matches (password s) (sdp_password d) = true)
  (Hdec : offer_decodes w = true)
  (Hpc : new_peer_connection w = Some pc)
  (Hadd : add_track_ok w = true)
  (Hneg : negotiation_ok w = true)
  (Hld : local_description w = Some answer) :
  on_state_change r s
  = {| password := password s; connection := Disconnected;
       peer_connection := None; video_track := None |}
  /\ sdp_handler w d (on_state_change r s)
     = (Done (Reply {| sdp := answer; sdp_password := None |}),
        {| password := password s; connection := Connected;
           peer_connection := Some pc;
           video_track := Some (new_video_track w) |}).
Proof.
  assert (Hs : on_state_change r s
               = {| password := password s; connection := Disconnected;
                    peer_connection := None; video_track := None |})
    by (destruct Hr as [-> | [-> | ->]]; reflexivity).
  split; [exact Hs|]. rewrite Hs.
  unfold sdp_handler. simpl.
  rewrite Hauth. simpl. rewrite Hdec, Hpc. simpl. rewrite Hadd. simpl.
  rewrite Hneg, Hld. reflexivity.
Qed.

Lemma terminal_report_releases_session_witness :
  on_state_change PcFailed connected_state = idle (Some "pw")
  /\ sdp_handler (webrtc_ok 2 2 "YW5zd2Vy") (offer_with (Some "pw"))
                 (on_state_change PcFailed connected_state)
     = (Done (Reply {| sdp := "YW5zd2Vy"; sdp_password := None |}),
        {| password := Some "pw"; connection := Connected;
           peer_connection := Some 2%nat; video_track := Some 2%nat |}).
Proof.
  exact (terminal_report_releases_session PcFailed connected_state
           (webrtc_ok 2 2 "YW5zd2Vy") (offer_with (Some "pw")) 2 "YW5zd2Vy"
           (or_intror (or_intror eq_refl))
           eq_refl eq_refl eq_refl eq_refl eq_refl eq_refl).
Defined.

End Signaling.

(** ** Instances *)

Section Instances.
Import Scenarios.


(** C9 as stated fails: two samples published in a row are both pending,
    and the sender then consumes the older one. *)
Lemma handoff_not_latest_value_counterexample :
  fst (Handoff.run [] [Handoff.Publish sample_a; Handoff.Publish sample_b])
  = [sample_a; sample_b]
  /\ Handoff.run [] [Handoff.Publish sample_a; Handoff.Publish sample_b;
                     Handoff.Consume]
     = ([sample_b], [sample_a])
  /\ sample_a <> sample_b.
Proof.
  split; [reflexivity | split; [reflexivity|]].
  intros H. apply (f_equal (fun m => PrimFloat.eqb (Mouse.mx m) 0.25)) in H.
  vm_compute in H. discriminate.
Qed.

Lemma handoff_bounded_fifo_witness :
  List.length full_queue = Handoff.capacity
  /\ Handoff.try_send full_queue sample_b = full_queue
  /\ (List.length two_pending < Handoff.capacity)%nat
  /\ Handoff.try_send two_pending sample_b = two_pending ++ [sample_b]
  /\ Handoff.recv (sample_a :: two_pending) = Some (sample_a, two_pending)
  /\ (List.length (fst (Handoff.run full_queue
        [Handoff.Publish sample_b; Handoff.Consume;
         Handoff.Publish sample_b; Handoff.Publish sample_b]))
      <= Handoff.capacity)%nat.
Proof.
  assert (Hf : List.length full_queue = Handoff.capacity) by reflexivity.
  assert (Ht : (List.length two_pending < Handoff.capacity)%nat)
    by (apply Nat.ltb_lt; reflexivity).
  destruct (handoff_bounded_fifo full_queue sample_b sample_b
              [Handoff.Publish sample_b; Handoff.Consume;
               Handoff.Publish sample_b; Handoff.Publish sample_b]
              (Nat.eq_le_incl _ _ Hf)) as (Hrun & Hfull & _ & _).
  destruct (handoff_bounded_fifo two_pending sample_b sample_a []
              (Nat.lt_le_incl _ _ Ht)) as (_ & _ & Hlt & Hrecv).
  split; [exact Hf|]. split; [exact (Hfull Hf)|].
  split; [exact Ht|]. split; [exact (Hlt Ht)|].
  split; [exact Hrecv | exact Hrun].
Defined.

Lemma mouse_normalization_witness :
  Mouse.sample Mouse.example_device (Mouse.Position 480 810)
  = Some {| Mouse.mx := let q := PrimFloat.div (Mouse.f64_of_Z (Mouse.i32_sub 480 0))
                                               (Mouse.f64_of_Z 1920) in
                        if PrimFloat.leb 0 q && PrimFloat.leb q 1 then q else -1;
            Mouse.my := let q := PrimFloat.div (Mouse.f64_of_Z (Mouse.i32_sub 810 0))
                                               (Mouse.f64_of_Z 1080) in
                        if PrimFloat.leb 0 q && PrimFloat.leb q 1 then q else -1 |}
  /\ Mouse.sample Mouse.example_device (Mouse.Position 960 540)
     = Some {| Mouse.mx := 0.5; Mouse.my := 0.5 |}
  /\ Mouse.sample Mouse.example_device (Mouse.Position (-10) 540)
     = Some {| Mouse.mx := -1; Mouse.my := 0.5 |}.
Proof. apply (mouse_normalization Mouse.example_device 480 810); reflexivity. Defined.


Lemma depack_access_unit_roundtrip_witness :
  Depack.process_video_track true []
    ([frag [x65; x88] false 3000; frag [x41] false 3000] ++ [frag [x41; x9a] true 3000])
  = ([{| Depack.data := Depack.annexb ([[x65; x88]; [x41]] ++ [[x41; x9a]]);
         Depack.ts := 3000 |}], []).
Proof.
  apply (depack_access_unit_roundtrip true
           [frag [x65; x88] false 3000; frag [x41] false 3000]
           (frag [x41; x9a] true 3000) [[x65; x88]; [x41]] [x41; x9a]);
    try reflexivity; try discriminate.
  - repeat constructor.
  - repeat constructor; discriminate.
Defined.

End Instances.

(** * Further properties of the modelled code *)

(** ** Reassembly loop *)

Section ReassemblyMore.
Import Depack.

(** No byte is lost, added or reordered: with an open receiver, the emitted
    access units followed by the final buffer are the starting buffer
    followed by every non-empty depacketized payload, each behind a start
    code, in arrival order. *)
Theorem process_conserves_bytes (buf : bytes) (pkts : list RtpPacket) :
  let '(out, final) := process_video_track true buf pkts in
  flat_map data out ++ final
  = buf ++ flat_map (fun k => match depacketized k with
                             | Some q => if is_empty q then [] else start_code ++ q
                             | None => []
                             end) pkts.
Proof.
  revert buf. induction pkts as [|k pkts IH]; intros buf; simpl.
  - rewrite app_nil_r. reflexivity.
  - unfold on_packet at 1.
    set (b1 := match depacketized k with
               | Some payload => if negb (is_empty payload)
                                 then buf ++ start_code ++ payload else buf
               | None => buf end).
    assert (Hb1 : b1 = buf ++ match depacketized k with
                             | Some q => if is_empty q then [] else start_code ++ q
                             | None => [] end).
    { unfold b1. destruct (depacketized k) as [q|]; [|now rewrite app_nil_r].
      destruct (is_empty q); simpl; [now rewrite app_nil_r | reflexivity]. }
    destruct (marker k && negb (is_empty b1)).
    + specialize (IH []). destruct (process_video_track true [] pkts) as [out f].
      simpl. rewrite <- app_assoc, IH, Hb1, <- app_assoc. reflexivity.
    + specialize (IH b1). destruct (process_video_track true b1 pkts) as [out f].
      rewrite IH, Hb1, <- app_assoc. reflexivity.
Qed.

(** Every access unit handed to the channel carries the timestamp of a
    marker packet of the input, and there are at most as many access units
    as marker packets. *)
Theorem process_timestamps_from_markers (rx_open : bool) (buf : bytes)
  (pkts : list RtpPacket) :
  let out := fst (process_video_track rx_open buf pkts) in
  Forall (fun f => exists k, In k pkts /\ marker k = true /\ ts f = timestamp k) out
  /\ (List.length out <= List.length (filter marker pkts))%nat.
Proof.
  cbv zeta. revert buf.
  induction pkts as [|k pkts IH]; intros buf; simpl; [split; auto|].
  unfold on_packet.
  set (b1 := match depacketized k with
             | Some payload => if negb (is_empty payload)
                               then buf ++ start_code ++ payload else buf
             | None => buf end).
  destruct (marker k) eqn:Hm; simpl.
  - destruct (negb (is_empty b1)); simpl.
    + destruct rx_open.
      * specialize (IH []). destruct (process_video_track true [] pkts) as [out f].
        simpl in *. destruct IH as [IH1 IH2]. split; [|lia].
        constructor; [exists k; auto|].
        eapply Forall_impl; [|exact IH1].
        intros g [k' [? ?]]. exists k'. auto.
      * simpl. split; [|lia]. constructor; [exists k; auto | constructor].
    + destruct (IH b1) as [IH1 IH2]. split; [|lia].
      eapply Forall_impl; [|exact IH1]. intros g [k' [? ?]]. exists k'. auto.
  - destruct (IH b1) as [IH1 IH2]. split; [|lia].
    eapply Forall_impl; [|exact IH1]. intros g [k' [? ?]]. exists k'. auto.
Qed.

(** Once the receiving side is gone, the loop hands at most one access unit
    to [send] (its failure ends the loop). *)
Theorem process_closed_receiver_at_most_one (buf : bytes)
  (pkts : list RtpPacket) :
  (List.length (fst (process_video_track false buf pkts)) <= 1)%nat.
Proof.
  revert buf. induction pkts as [|k pkts IH]; intros buf; simpl; [lia|].
  destruct (on_packet buf k) as [buf' [f|]]; simpl; [lia | apply IH].
Qed.

End ReassemblyMore.

(** ** Pointer sampler and overlay *)

Section SamplerMore.
Import Mouse.

(** The client draws the cursor for a sample exactly when both relative
    coordinates the server computed were in [0, 1]: the [-1] sentinel on
    either axis hides the overlay. *)
Theorem cursor_drawn_iff_in_bounds (dev : CaptureDevice) (px py : Z) :
  Gui.cursor_drawn (sample dev (Position px py))
  = (let rx := relative_axis px (x dev) (width dev) in
     PrimFloat.leb 0 rx && PrimFloat.leb rx 1)
    && (let ry := relative_axis py (y dev) (height dev) in
        PrimFloat.leb 0 ry && PrimFloat.leb ry 1).
Proof.
  unfold Gui.cursor_drawn, sample, out_of_bounds. cbn zeta.
  set (rx := relative_axis px (x dev) (width dev)).
  set (ry := relative_axis py (y dev) (height dev)).
  destruct (PrimFloat.leb 0 rx && PrimFloat.leb rx 1) eqn:Ex;
  destruct (PrimFloat.leb 0 ry && PrimFloat.leb ry 1) eqn:Ey; simpl;
  try (apply andb_true_iff in Ex as [Ex _]);
  try (apply andb_true_iff in Ey as [Ey _]);
  try rewrite Ex; try rewrite Ey; reflexivity.
Qed.

End SamplerMore.

(** ** Pairing *)

Section PairingProps.
Import Pairing.

Lemma string_of_list_ascii_app (l1 l2 : list ascii) :
  string_of_list_ascii (l1 ++ l2)
  = String.append (string_of_list_ascii l1) (string_of_list_ascii l2).
Proof.
  induction l1 as [|c l1 IH]; simpl; [reflexivity | rewrite IH; reflexivity].
Qed.

Lemma parse_digits_append (acc : Z) (s1 s2 : string) :
  parse_digits acc (String.append s1 s2)
  = match parse_digits acc s1 with
    | Some a => parse_digits a s2
    | None => None
    end.
Proof.
  revert acc. induction s1 as [|c s1 IH]; intros acc; [reflexivity|].
  cbn [String.append parse_digits].
  destruct (digit_of c) as [d|]; [|reflexivity].
  destruct (65535 <? acc * 10); [reflexivity|].
  destruct (65535 <? acc * 10 + d); [reflexivity | apply IH].
Qed.

Lemma digit_of_char (r : Z) :
  0 <= r <= 9 -> digit_of (ascii_of_nat (48 + Z.to_nat r)) = Some r.
Proof.
  intros Hr. unfold digit_of.
  rewrite Ascii.nat_ascii_embedding by lia.
  rewrite (proj2 (Nat.leb_le 48 _)) by lia.
  rewrite (proj2 (Nat.leb_le _ 57)) by lia.
  cbn [andb]. f_equal. lia.
Qed.

(** The digits [dec_rev] writes read back, with the checked arithmetic of
    [parse_digits], as the number they were written from. *)
Lemma dec_rev_parse (f : nat) (n : Z) :
  0 <= n < 10 ^ Z.of_nat f -> n <= 65535 ->
  parse_digits 0 (string_of_list_ascii (rev (dec_rev f n))) = Some n.
Proof.
  revert n. induction f as [|f IH]; intros n Hn Hmax.
  - change (10 ^ Z.of_nat 0) with 1 in Hn.
    replace n with 0 by lia. reflexivity.
  - rewrite Nat2Z.inj_succ, Z.pow_succ_r in Hn by lia.
    pose proof (Z.div_mod n 10) as Hdm. pose proof (Z.mod_pos_bound n 10) as Hmb.
    assert (Hd := digit_of_char (n mod 10) ltac:(lia)).
    cbn [dec_rev rev]. rewrite string_of_list_ascii_app, parse_digits_append.
    destruct (n / 10 =? 0) eqn:Hq.
    + apply Z.eqb_eq in Hq. cbn [rev string_of_list_ascii parse_digits]. rewrite Hd.
      rewrite (proj2 (Z.ltb_ge 65535 (0 * 10))) by lia.
      rewrite (proj2 (Z.ltb_ge 65535 (0 * 10 + n mod 10))) by lia.
      f_equal. lia.
    + apply Z.eqb_neq in Hq.
      rewrite (IH (n / 10)) by lia.
      cbn [string_of_list_ascii parse_digits]. rewrite Hd.
      rewrite (proj2 (Z.ltb_ge 65535 (n / 10 * 10))) by lia.
      rewrite (proj2 (Z.ltb_ge 65535 (n / 10 * 10 + n mod 10))) by lia.
      f_equal. lia.
Qed.

(** A non-empty string of digits that [parse_digits] accepts is accepted
    by [parse_u16] too: its first byte is no sign. *)
Lemma parse_u16_digits (s : string) (n : Z) :
  s <> EmptyString -> parse_digits 0 s = Some n -> parse_u16 s = Some n.
Proof.
  intros Hne H. destruct s as [|c r]; [congruence|].
  assert (Hc : digit_of c <> None).
  { intros E. cbn [parse_digits] in H. rewrite E in H. discriminate. }
  assert (Hplus : Ascii.eqb c "+"%char = false).
  { destruct (Ascii.eqb c "+"%char) eqn:E; [|reflexivity].
    apply Ascii.eqb_eq in E. subst. exfalso. apply Hc. reflexivity. }
  assert (Hminus : Ascii.eqb c "-"%char = false).
  { destruct (Ascii.eqb c "-"%char) eqn:E; [|reflexivity].
    apply Ascii.eqb_eq in E. subst. exfalso. apply Hc. reflexivity. }
  unfold parse_u16. destruct r as [|c' r].
  - rewrite Hplus, Hminus. exact H.
  - rewrite Hplus. exact H.
Qed.

(** The port the server advertises ([port.to_string()]) parses back, on
    the client, to the same port, for every [u16]. *)
Theorem port_to_string_parse (port : Z) (H : 0 <= port <= 65535) :
  parse_u16 (u16_to_string port) = Some port.
Proof.
  unfold u16_to_string. apply parse_u16_digits.
  - cbn [dec_rev rev]. rewrite string_of_list_ascii_app.
    destruct (string_of_list_ascii _); discriminate.
  - apply dec_rev_parse; [|lia].
    change (10 ^ Z.of_nat 5) with 100000. lia.
Qed.

Lemma ip_eqb_eq (a b : IpAddr) : ip_eqb a b = true <-> a = b.
Proof.
  destruct a, b; simpl; split; intros H; try discriminate;
    try (apply Z.eqb_eq in H; subst; reflexivity);
    try (injection H as ->; apply Z.eqb_refl).
Qed.

Ltac weaken_events IH :=
  eapply Forall_impl; [|apply IH];
  intros ? [inf [Hin HH]]; exists inf; split; [right; exact Hin | exact HH].

(** In the loop, every address the user is asked to connect to is the first IPv4
    address of a resolved service whose name starts with
    [wireless-display], whose [code] property equals the client's code and
    whose [port] property parses as a [u16]. *)
Lemma browse_loop_prompts_sound (code : string) (visited : list IpAddr)
  (evs : list ServiceEvent) (answers : list bool) :
  Forall (fun ip => exists info, In (ServiceResolved info) evs
            /\ String.prefix service_name (fullname info) = true
            /\ get "code" (properties info) = Some code
            /\ match get "port" (properties info) with
               | Some p => parse_u16 p | None => None end <> None
            /\ List.find is_ipv4 (addresses info) = Some ip)
    (snd (browse_loop code visited evs answers)).
Proof.
  revert visited answers.
  induction evs as [|ev rest IH]; intros visited answers; simpl; [constructor|].
  destruct ev as [info|]; [|weaken_events IH].
  destruct (negb (String.prefix service_name (fullname info))) eqn:Hpre;
    [weaken_events IH|].
  destruct (get "code" (properties info)) as [sc|] eqn:Hc; [|weaken_events IH].
  destruct (String.eqb sc code) eqn:Hsc; [|weaken_events IH].
  apply String.eqb_eq in Hsc. subst sc.
  destruct (match get "port" (properties info) with
            | Some p => parse_u16 p | None => None end) as [port|] eqn:Hp;
    [|weaken_events IH].
  destruct (List.find is_ipv4 (addresses info)) as [ip|] eqn:Hip;
    [|weaken_events IH].
  assert (Hinfo : exists inf, In (ServiceResolved inf) (ServiceResolved info :: rest)
            /\ String.prefix service_name (fullname inf) = true
            /\ get "code" (properties inf) = Some code
            /\ match get "port" (properties inf) with
               | Some p => parse_u16 p | None => None end <> None
            /\ List.find is_ipv4 (addresses inf) = Some ip).
  { exists info. apply negb_false_iff in Hpre.
    repeat split; [left; reflexivity | exact Hpre | exact Hc | | exact Hip].
    rewrite Hp. discriminate. }
  destruct (existsb (ip_eqb ip) visited); [weaken_events IH|].
  destruct answers as [|[|] answers']; simpl;
    try (constructor; [exact Hinfo | constructor]).
  specialize (IH (ip :: visited) answers').
  destruct (browse_loop code (ip :: visited) rest answers') as [r asked].
  simpl in *. constructor; [exact Hinfo|].
  eapply Forall_impl; [|exact IH].
  intros ? [inf [Hin HH]]; exists inf; split; [right; exact Hin | exact HH].
Qed.

(** The address and port the loop accepts come from one resolved
    service with the right name prefix and code: the port is its parsed
    [port] property, the address its first IPv4 address, and the user was
    asked about that address. *)
Lemma browse_loop_accepted_sound (code : string) (visited : list IpAddr)
  (evs : list ServiceEvent) (answers : list bool) (ip : IpAddr) (port : Z)
  (H : fst (browse_loop code visited evs answers) = Accepted ip port) :
  In ip (snd (browse_loop code visited evs answers))
  /\ exists info, In (ServiceResolved info) evs
       /\ String.prefix service_name (fullname info) = true
       /\ get "code" (properties info) = Some code
       /\ match get "port" (properties info) with
          | Some p => parse_u16 p | None => None end = Some port
       /\ List.find is_ipv4 (addresses info) = Some ip.
Proof.
  revert visited answers H.
  induction evs as [|ev rest IH]; intros visited answers H; simpl in *;
    [discriminate|].
  destruct ev as [info|].
  2:{ destruct (IH _ _ H) as [Hin [inf [? ?]]]. split; [exact Hin|].
      exists inf. split; [right|]; assumption. }
  destruct (negb (String.prefix service_name (fullname info))) eqn:Hpre.
  1:{ destruct (IH _ _ H) as [Hin [inf [? ?]]]. split; [exact Hin|].
      exists inf. split; [right|]; assumption. }
  destruct (get "code" (properties info)) as [sc|] eqn:Hc.
  2:{ destruct (IH _ _ H) as [Hin [inf [? ?]]]. split; [exact Hin|].
      exists inf. split; [right|]; assumption. }
  destruct (String.eqb sc code) eqn:Hsc.
  2:{ destruct (IH _ _ H) as [Hin [inf [? ?]]]. split; [exact Hin|].
      exists inf. split; [right|]; assumption. }
  apply String.eqb_eq in Hsc. subst sc.
  destruct (match get "port" (properties info) with
            | Some p => parse_u16 p | None => None end) as [port'|] eqn:Hp.
  2:{ destruct (IH _ _ H) as [Hin [inf [? ?]]]. split; [exact Hin|].
      exists inf. split; [right|]; assumption. }
  destruct (List.find is_ipv4 (addresses info)) as [ip'|] eqn:Hip.
  2:{ destruct (IH _ _ H) as [Hin [inf [? ?]]]. split; [exact Hin|].
      exists inf. split; [right|]; assumption. }
  destruct (existsb (ip_eqb ip') visited).
  1:{ destruct (IH _ _ H) as [Hin [inf [? ?]]]. split; [exact Hin|].
      exists inf. split; [right|]; assumption. }
  destruct answers as [|[|] answers']; simpl in *; [discriminate| |].
  - injection H as <- <-. split; [left; reflexivity|].
    exists info. apply negb_false_iff in Hpre.
    repeat split; [left; reflexivity | exact Hpre | exact Hc | exact Hp | exact Hip].
  - specialize (IH (ip' :: visited) answers').
    destruct (browse_loop code (ip' :: visited) rest answers') as [r asked].
    simpl in *. destruct (IH H) as [Hin [inf [? ?]]].
    split; [right; exact Hin|]. exists inf. split; [right|]; assumption.
Qed.

(** In the loop, the user is never asked twice about the same address, nor about one
    already visited. *)
Lemma browse_loop_no_repeat (code : string) (visited : list IpAddr)
  (evs : list ServiceEvent) (answers : list bool) :
  let asked := snd (browse_loop code visited evs answers) in
  NoDup asked /\ Forall (fun ip => ~ In ip visited) asked.
Proof.
  cbv zeta. revert visited answers.
  induction evs as [|ev rest IH]; intros visited answers; simpl;
    [split; constructor|].
  destruct ev as [info|]; [|apply IH].
  destruct (negb (String.prefix service_name (fullname info))); [apply IH|].
  destruct (get "code" (properties info)) as [sc|]; [|apply IH].
  destruct (String.eqb sc code); [|apply IH].
  destruct (match get "port" (properties info) with
            | Some p => parse_u16 p | None => None end) as [port|]; [|apply IH].
  destruct (List.find is_ipv4 (addresses info)) as [ip|]; [|apply IH].
  destruct (existsb (ip_eqb ip) visited) eqn:Hv; [apply IH|].
  assert (Hnv : ~ In ip visited).
  { intros Hin. assert (existsb (ip_eqb ip) visited = true) by
      (apply existsb_exists; exists ip; split; [exact Hin | apply ip_eqb_eq; reflexivity]).
    congruence. }
  destruct answers as [|[|] answers']; simpl;
    try (split; [constructor; [intros [] | constructor] | constructor; [exact Hnv | constructor]]).
  specialize (IH (ip :: visited) answers').
  destruct (browse_loop code (ip :: visited) rest answers') as [r asked].
  simpl in *. destruct IH as [Hnd Hfa].
  split.
  - constructor; [|exact Hnd].
    intros Hin. rewrite Forall_forall in Hfa. apply (Hfa ip Hin). left; reflexivity.
  - constructor; [exact Hnv|].
    eapply Forall_impl; [|exact Hfa]. intros a Ha Hin. apply Ha. right; exact Hin.
Qed.

(** Every address the user is asked to connect to is the first IPv4
    address of a resolved service whose name starts with
    [wireless-display], whose [code] property (key compared up to case)
    equals the client's code and whose [port] property parses as a [u16];
    whether or not the daemon and [stop_browse] fail. *)
Theorem discovery_prompts_sound (daemon_ok stop_ok : bool) (code : string)
  (evs : list ServiceEvent) (answers : list bool) :
  Forall (fun ip => exists info, In (ServiceResolved info) evs
            /\ String.prefix service_name (fullname info) = true
            /\ get "code" (properties info) = Some code
            /\ match get "port" (properties info) with
               | Some p => parse_u16 p | None => None end <> None
            /\ List.find is_ipv4 (addresses info) = Some ip)
    (snd (find_server_address daemon_ok stop_ok code evs answers)).
Proof.
  unfold find_server_address. destruct daemon_ok; cbn [negb]; [|constructor].
  pose proof (browse_loop_prompts_sound code [] evs answers) as H.
  destruct (browse_loop code [] evs answers) as [[ip port| |] asked];
    [destruct stop_ok| |]; exact H.
Qed.

(** When discovery returns an address and a port, the daemon and
    [stop_browse] succeeded, the user was asked about that address, and
    both come from one resolved service with the right name prefix and
    code: the port is its parsed [port] property, the address its first
    IPv4 address. *)
Theorem discovery_found_sound (daemon_ok stop_ok : bool) (code : string)
  (evs : list ServiceEvent) (answers : list bool) (ip : IpAddr) (port : Z)
  (H : fst (find_server_address daemon_ok stop_ok code evs answers) = Found ip port) :
  daemon_ok = true /\ stop_ok = true
  /\ In ip (snd (find_server_address daemon_ok stop_ok code evs answers))
  /\ exists info, In (ServiceResolved info) evs
       /\ String.prefix service_name (fullname info) = true
       /\ get "code" (properties info) = Some code
       /\ match get "port" (properties info) with
          | Some p => parse_u16 p | None => None end = Some port
       /\ List.find is_ipv4 (addresses info) = Some ip.
Proof.
  unfold find_server_address in *.
  destruct daemon_ok; cbn [negb] in *; [|discriminate].
  pose proof (browse_loop_accepted_sound code [] evs answers ip port) as L.
  destruct (browse_loop code [] evs answers) as [[ip' port'| |] asked];
    cbn [fst snd] in *; [|destruct stop_ok; discriminate | discriminate].
  destruct stop_ok; [|discriminate].
  injection H as <- <-.
  split; [reflexivity | split; [reflexivity | apply L; reflexivity]].
Qed.

(** The user is never asked twice about the same address. *)
Theorem discovery_no_repeated_prompt (daemon_ok stop_ok : bool) (code : string)
  (evs : list ServiceEvent) (answers : list bool) :
  NoDup (snd (find_server_address daemon_ok stop_ok code evs answers)).
Proof.
  unfold find_server_address. destruct daemon_ok; cbn [negb]; [|constructor].
  destruct (browse_loop_no_repeat code [] evs answers) as [H _].
  destruct (browse_loop code [] evs answers) as [[ip port| |] asked];
    [destruct stop_ok| |]; exact H.
Qed.

(** Pairing end to end: when the first resolved event is the service the
    server registers with the same code, for any [u16] port and a host with
    an IPv4 address, and the user confirms after one prompt, the client
    gets that address and exactly the advertised port if [stop_browse]
    succeeds, and an error if it fails. *)
Theorem pairing_end_to_end (stop_ok : bool) (code : string) (port : Z)
  (addrs : list IpAddr) (ip : IpAddr) (rest : list ServiceEvent)
  (answers : list bool)
  (Hport : 0 <= port <= 65535)
  (Hip : List.find is_ipv4 addrs = Some ip) :
  find_server_address true stop_ok code
    (ServiceResolved (advertised code port addrs) :: rest) (true :: answers)
  = (if stop_ok then Found ip port else Failed, [ip]).
Proof.
  assert (Hpre : String.prefix service_name
                   (fullname (advertised code port addrs)) = true) by reflexivity.
  assert (Hc : get "code" (properties (advertised code port addrs)) = Some code)
    by reflexivity.
  assert (Hp : get "port" (properties (advertised code port addrs))
               = Some (u16_to_string port)) by reflexivity.
  assert (Ha : addresses (advertised code port addrs) = addrs) by reflexivity.
  unfold find_server_address. cbn [negb browse_loop].
  rewrite Hpre, Hc, String.eqb_refl, Hp, (port_to_string_parse port Hport),
    Ha, Hip.
  reflexivity.
Qed.

End PairingProps.

(** ** Signaling endpoint *)

Section SignalingMore.
Import Signal SignalInv.

Lemma step_keeps_handles (w : Webrtc) (d : SdpData) (ph : Phase)
  (s : AppState) :
  (peer_connection s <> None -> peer_connection (snd (step w d ph s)) <> None)
  /\ (video_track s <> None -> video_track (snd (step w d ph s)) <> None).
Proof.
  destruct ph; simpl; try (split; intros H; exact H).
  - destruct (password_matches (password s) (sdp_password d)); split; auto.
  - destruct (ConnectionState_eqb (connection s) Disconnected); split; auto.
  - destruct (offer_decodes w); [destruct (new_peer_connection w)|]; simpl;
      split; auto; discriminate.
  - destruct (add_track_ok w); simpl; split; auto; discriminate.
  - destruct (negotiation_ok w); [destruct (local_description w)|]; simpl;
      split; auto.
Qed.

Lemma phase_ok_mono (ph : Phase) (s s' : AppState) :
  (peer_connection s <> None -> peer_connection s' <> None) ->
  (video_track s <> None -> video_track s' <> None) ->
  phase_ok ph s -> phase_ok ph s'.
Proof.
  intros Hp Ht. destruct ph; simpl; auto; intros [? ?]; auto.
Qed.

Lemma step_invariant (w : Webrtc) (d : SdpData) (ph : Phase) (s : AppState) :
  session_ok s -> phase_ok ph s ->
  session_ok (snd (step w d ph s)) /\ phase_ok (fst (step w d ph s)) (snd (step w d ph s)).
Proof.
  unfold session_ok. intros Hs Hph.
  destruct ph; simpl in *;
    repeat match goal with
           | |- context [if ?b then _ else _] => destruct b
           | |- context [match ?x with Some _ => _ | None => _ end] => destruct x
           end; simpl; firstorder congruence.
Qed.

Lemma step_nth_invariant (i : nat) (ts : list Task) (s : AppState) :
  session_ok s -> Forall (fun t => phase_ok (t_phase t) s) ts ->
  session_ok (snd (step_nth i ts s))
  /\ Forall (fun t => phase_ok (t_phase t) (snd (step_nth i ts s)))
            (fst (step_nth i ts s)).
Proof.
  revert i s. induction ts as [|t ts IH]; intros i s Hs Hts; simpl;
    [destruct i; split; [exact Hs | constructor | exact Hs | constructor]|].
  pose proof (Forall_inv Hts) as Ht. pose proof (Forall_inv_tail Hts) as Hts'.
  destruct i as [|j]; cbn [step_nth].
  - unfold step_task.
    destruct (step_keeps_handles (t_webrtc t) (t_offer t) (t_phase t) s) as [Kp Kt].
    destruct (step_invariant (t_webrtc t) (t_offer t) (t_phase t) s Hs Ht) as [Hs' Ht'].
    destruct (step (t_webrtc t) (t_offer t) (t_phase t) s) as [ph s'] eqn:E.
    simpl in *. split; [exact Hs'|]. constructor; [exact Ht'|].
    eapply Forall_impl; [|exact Hts']. intros u. apply phase_ok_mono; assumption.
  - assert (Hmono : forall s0 ts0 j0,
               (peer_connection s0 <> None ->
                peer_connection (snd (step_nth j0 ts0 s0)) <> None)
               /\ (video_track s0 <> None ->
                   video_track (snd (step_nth j0 ts0 s0)) <> None)).
    { intros s0 ts0. induction ts0 as [|u ts0 IH0]; intros j0;
        [destruct j0; simpl; split; auto|].
      destruct j0 as [|j1]; cbn [step_nth].
      - unfold step_task.
        destruct (step_keeps_handles (t_webrtc u) (t_offer u) (t_phase u) s0) as [Kp Kt].
        destruct (step (t_webrtc u) (t_offer u) (t_phase u) s0); simpl in *; split; auto.
      - specialize (IH0 j1). destruct (step_nth j1 ts0 s0); simpl in *; exact IH0. }
    destruct (Hmono s ts j) as [Kp Kt].
    destruct (IH j s Hs Hts') as [Hs' Hts''].
    destruct (step_nth j ts s) as [ts' s'] eqn:E. simpl in *.
    split; [exact Hs'|]. constructor; [|exact Hts''].
    eapply phase_ok_mono; eassumption.
Qed.

(** However the steps of concurrent requests interleave (with no state
    report in between), the session is never marked [Connecting] or
    [Connected] without a peer connection and a video track, starting from
    fresh requests and a session where this holds. *)
Theorem concurrent_session_has_handles (sched : list nat) (ts : list Task)
  (s : AppState)
  (Hts : Forall (fun t => t_phase t = Auth) ts)
  (Hs : connection s <> Disconnected ->
        peer_connection s <> None /\ video_track s <> None) :
  connection (snd (run_schedule sched ts s)) <> Disconnected ->
  peer_connection (snd (run_schedule sched ts s)) <> None
  /\ video_track (snd (run_schedule sched ts s)) <> None.
Proof.
  assert (Hinv : forall sched ts s, session_ok s ->
            Forall (fun t => phase_ok (t_phase t) s) ts ->
            session_ok (snd (run_schedule sched ts s))).
  { clear. induction sched as [|i sched IH]; intros ts s Hs Hts; simpl; [exact Hs|].
    destruct (step_nth_invariant i ts s Hs Hts) as [Hs' Hts'].
    destruct (step_nth i ts s) as [ts' s']. apply IH; assumption. }
  apply Hinv; [exact Hs|].
  eapply Forall_impl; [|exact Hts]. intros t Ht. rewrite Ht. exact I.
Qed.

Lemma step_password (w : Webrtc) (d : SdpData) (ph : Phase) (s : AppState) :
  password (snd (step w d ph s)) = password s.
Proof.
  destruct ph; simpl;
    repeat match goal with
           | |- context [if ?b then _ else _] => destruct b
           | |- context [match ?x with Some _ => _ | None => _ end] => destruct x
           end; reflexivity.
Qed.

Lemma step_never_disconnects (w : Webrtc) (d : SdpData) (ph : Phase)
  (s : AppState) :
  connection s <> Disconnected -> connection (snd (step w d ph s)) <> Disconnected.
Proof.
  intros H. destruct ph; simpl;
    repeat match goal with
           | |- context [if ?b then _ else _] => destruct b
           | |- context [match ?x with Some _ => _ | None => _ end] => destruct x
           end; simpl; try exact H; discriminate.
Qed.

Lemma answered_ok_mono (pw : option string) (t : Task) (s s' : AppState) :
  (connection s <> Disconnected -> connection s' <> Disconnected) ->
  answered_ok pw t s -> answered_ok pw t s'.
Proof.
  intros Hc. unfold answered_ok.
  destruct (t_phase t) as [| | | | | |[a| |]]; auto.
  intros (H1 & H2 & H3 & H4). auto.
Qed.

Lemma step_task_answered (pw : option string) (t : Task) (s : AppState) :
  password s = pw -> answered_ok pw t s ->
  answered_ok pw (fst (step_task t s)) (snd (step_task t s)).
Proof.
  intros Hpw Ht. unfold step_task, answered_ok in *. subst pw.
  destruct t as [w d ph]. cbn [t_webrtc t_offer t_phase] in *.
  destruct ph; simpl in *.
  - destruct (password_matches (password s) (sdp_password d)) eqn:E; simpl; auto.
  - destruct (ConnectionState_eqb (connection s) Disconnected); simpl; auto.
  - destruct (offer_decodes w); [destruct (new_peer_connection w)|]; simpl; auto.
  - destruct (add_track_ok w); simpl; auto.
  - exact Ht.
  - destruct (negotiation_ok w) eqn:En; [destruct (local_description w) eqn:El|];
      simpl; auto.
    repeat split; [exact Ht | exact El | simpl; discriminate].
  - exact Ht.
Qed.

Lemma step_nth_answered (pw : option string) (i : nat) (ts : list Task)
  (s : AppState) :
  password s = pw -> Forall (fun t => answered_ok pw t s) ts ->
  password (snd (step_nth i ts s)) = pw
  /\ (connection s <> Disconnected ->
      connection (snd (step_nth i ts s)) <> Disconnected)
  /\ Forall (fun t => answered_ok pw t (snd (step_nth i ts s)))
            (fst (step_nth i ts s)).
Proof.
  revert i s. induction ts as [|t ts IH]; intros i s Hpw Hts;
    [destruct i; simpl; auto|].
  pose proof (Forall_inv Hts) as Ht. pose proof (Forall_inv_tail Hts) as Hts'.
  destruct i as [|j]; cbn [step_nth].
  - pose proof (step_task_answered pw t s Hpw Ht) as Ht'.
    assert (Hp : password (snd (step_task t s)) = pw).
    { unfold step_task. rewrite <- Hpw, <- (step_password (t_webrtc t) (t_offer t) (t_phase t) s).
      destruct (step (t_webrtc t) (t_offer t) (t_phase t) s); reflexivity. }
    assert (Hc : connection s <> Disconnected ->
                 connection (snd (step_task t s)) <> Disconnected).
    { intros H. unfold step_task.
      pose proof (step_never_disconnects (t_webrtc t) (t_offer t) (t_phase t) s H).
      destruct (step (t_webrtc t) (t_offer t) (t_phase t) s); exact H0. }
    destruct (step_task t s) as [t' s']. cbn [fst snd] in *.
    split; [exact Hp | split; [exact Hc|]].
    constructor; [exact Ht'|].
    eapply Forall_impl; [|exact Hts']. intros u. apply answered_ok_mono, Hc.
  - destruct (IH j s Hpw Hts') as (Hp & Hc & Hts'').
    destruct (step_nth j ts s) as [ts' s']. cbn [fst snd] in *.
    split; [exact Hp | split; [exact Hc|]].
    constructor; [|exact Hts''].
    eapply answered_ok_mono; [exact Hc | exact Ht].
Qed.

(** However the steps of concurrent requests interleave (with no state
    report in between), every request that was answered passed the
    password check, its answer is the local description of its own peer
    connection and carries no password, and the session is left marked
    [Connecting] or [Connected]. *)
Theorem answered_offer_characterized (sched : list nat) (ts : list Task)
  (s : AppState) (Hts : Forall (fun t => t_phase t = Auth) ts) :
  Forall (fun t => match t_phase t with
                   | Done (Reply a) =>
                       password_matches (password s) (sdp_password (t_offer t)) = true
                       /\ local_description (t_webrtc t) = Some (sdp a)
                       /\ sdp_password a = None
                       /\ connection (snd (run_schedule sched ts s)) <> Disconnected
                   | _ => True
                   end)
    (fst (run_schedule sched ts s)).
Proof.
  assert (Hinv : forall sched ts s0, password s0 = password s ->
            Forall (fun t => answered_ok (password s) t s0) ts ->
            Forall (fun t => answered_ok (password s) t (snd (run_schedule sched ts s0)))
                   (fst (run_schedule sched ts s0))).
  { clear Hts ts sched. induction sched as [|i sched IH]; intros ts s0 Hp Hts;
      simpl; [exact Hts|].
    destruct (step_nth_answered (password s) i ts s0 Hp Hts) as (Hp' & _ & Hts').
    destruct (step_nth i ts s0) as [ts' s']. apply IH; assumption. }
  assert (Hstart : Forall (fun t => answered_ok (password s) t s) ts).
  { eapply Forall_impl; [|exact Hts]. intros t Ht. unfold answered_ok.
    rewrite Ht. exact I. }
  eapply Forall_impl; [|exact (Hinv sched ts s eq_refl Hstart)].
  intros t. unfold answered_ok.
  destruct (t_phase t) as [| | | | | |[a| |]]; auto.
Qed.

End SignalingMore.

(** ** Instances of the further properties *)

Section MoreInstances.
Import Scenarios.
Local Open Scope string_scope.

Lemma port_to_string_parse_witness :
  Pairing.parse_u16 (Pairing.u16_to_string 8787) = Some 8787.
Proof.
  apply (port_to_string_parse 8787). lia.
Defined.

Lemma discovery_found_sound_witness :
  true = true /\ true = true
  /\ In (Pairing.V4 5)
       (snd (Pairing.find_server_address true true "hello"
               [Pairing.OtherEvent; Pairing.ServiceResolved upper_case_keys] [true]))
  /\ exists info,
       In (Pairing.ServiceResolved info)
          [Pairing.OtherEvent; Pairing.ServiceResolved upper_case_keys]
       /\ String.prefix Pairing.service_name (Pairing.fullname info) = true
       /\ Pairing.get "code" (Pairing.properties info) = Some "hello"
       /\ match Pairing.get "port" (Pairing.properties info) with
          | Some p => Pairing.parse_u16 p | None => None end = Some 8787
       /\ List.find Pairing.is_ipv4 (Pairing.addresses info) = Some (Pairing.V4 5).
Proof.
  apply (discovery_found_sound true true "hello"
           [Pairing.OtherEvent; Pairing.ServiceResolved upper_case_keys]
           [true] (Pairing.V4 5) 8787).
  vm_compute. reflexivity.
Defined.

Lemma pairing_end_to_end_witness :
  Pairing.find_server_address true true "hello"
    [Pairing.ServiceResolved
       (Pairing.advertised "hello" 8787 [Pairing.V6 1; Pairing.V4 5])]
    [true]
  = (Pairing.Found (Pairing.V4 5) 8787, [Pairing.V4 5])
  /\ Pairing.find_server_address true false "hello"
       [Pairing.ServiceResolved
          (Pairing.advertised "hello" 8787 [Pairing.V6 1; Pairing.V4 5])]
       [true]
     = (Pairing.Failed, [Pairing.V4 5]).
Proof.
  split.
  - apply (pairing_end_to_end true "hello" 8787 [Pairing.V6 1; Pairing.V4 5]
             (Pairing.V4 5) [] []); [lia | reflexivity].
  - apply (pairing_end_to_end false "hello" 8787 [Pairing.V6 1; Pairing.V4 5]
             (Pairing.V4 5) [] []); [lia | reflexivity].
Defined.

Lemma answered_offer_characterized_witness :
  Forall (fun t => match Signal.t_phase t with
                   | Signal.Done (Signal.Reply a) =>
                       Signal.password_matches (Signal.password (idle (Some "pw")))
                         (Signal.sdp_password (Signal.t_offer t)) = true
                       /\ Signal.local_description (Signal.t_webrtc t)
                          = Some (Signal.sdp a)
                       /\ Signal.sdp_password a = None
                       /\ Signal.connection
                            (snd (Signal.run_schedule racing_schedule two_offers
                                    (idle (Some "pw")))) <> Signal.Disconnected
                   | _ => True
                   end)
    (fst (Signal.run_schedule racing_schedule two_offers (idle (Some "pw")))).
Proof.
  apply (answered_offer_characterized racing_schedule two_offers (idle (Some "pw"))).
  repeat constructor.
Defined.

Lemma concurrent_session_has_handles_witness :
  Signal.connection (snd (Signal.run_schedule racing_schedule two_offers (idle (Some "pw"))))
    = Signal.Connected
  /\ (Signal.peer_connection
        (snd (Signal.run_schedule racing_schedule two_offers (idle (Some "pw")))) <> None
      /\ Signal.video_track
           (snd (Signal.run_schedule racing_schedule two_offers (idle (Some "pw")))) <> None).
Proof.
  split; [vm_compute; reflexivity|].
  apply (concurrent_session_has_handles racing_schedule two_offers (idle (Some "pw"))).
  - repeat constructor.
  - intros Hc. exfalso. apply Hc. reflexivity.
  - vm_compute. discriminate.
Defined.

End MoreInstances.
